(** * CharacterModal: loadout state of the character dialog

    A shallow embedding of the state handling of
    [frontend/src/components/CharacterModal.jsx]: the React state
    variables of the component become one record, every event handler
    becomes a function from the state at render time to the state after
    the handler's setter calls have been applied. *)

From Stdlib Require Import ZArith Lia.
From stdpp Require Import gmap strings list fin_maps pretty.

Local Open Scope string_scope.
Local Open Scope list_scope.

(** ** JavaScript primitives used by the handlers *)

Module Js.

(** [a % n] on integral numbers: the remainder takes the sign of the
    dividend, and a zero divisor gives [NaN] (here [None]). *)
Definition rem (a n : Z) : option Z :=
  if decide (n = 0%Z) then None else Some (Z.rem a n).

(** [Array.prototype.splice(start, deleteCount)] without inserted
    items, as the resulting contents of the receiver: a negative
    [start] counts from the end, both arguments are clamped. *)
Definition splice {A} (l : list A) (start deleteCount : Z) : list A :=
  let len := Z.of_nat (length l) in
  let actualStart :=
    if decide (start < 0)%Z then Z.max (len + start) 0 else Z.min start len in
  let actualDeleteCount := Z.min (Z.max deleteCount 0) (len - actualStart) in
  take (Z.to_nat actualStart) l
    ++ drop (Z.to_nat (actualStart + actualDeleteCount)) l.

(** The array indices are the integers from 0 up to, and without,
    [2^32 - 1], which is also the largest length an array can have. *)
Definition maxArrayLength : Z := 4294967295.

(** [arr[i] = v] on an array whose elements are [Some] item or an empty
    position ([None]: a hole, read back as [undefined]).  An index
    inside the array overwrites (an array never has more than
    [2^32 - 1] elements, so such an index is an array index); an array
    index at or past the end grows the array to length [i + 1], leaving
    the positions in between empty; a negative integer, or one from
    [2^32 - 1] on, is not an array index: the write creates a named
    property, which neither [length], nor [map], nor the spread
    [[...arr]] of the next handler sees, so the elements are unchanged. *)
Definition assign {A} (l : list (option A)) (i : Z) (v : A)
  : list (option A) :=
  if decide (i < 0)%Z then l
  else
    let n := Z.to_nat i in
    if decide (n < length l) then <[n := Some v]> l
    else if decide (maxArrayLength ≤ i)%Z then l
    else l ++ replicate (n - length l) None ++ [Some v].

(** [arr[i]] for a numeric [i] ([None] of the index is [NaN]). *)
Definition index {A} (l : list A) (i : option Z) : option A :=
  match i with
  | Some z => if decide (z < 0)%Z then None else l !! Z.to_nat z
  | None => None
  end.

(** [arr.findIndex(p)]: the first position satisfying [p], or [-1]. *)
Fixpoint findIndexFrom {A} (p : A → bool) (l : list A) (k : Z) : Z :=
  match l with
  | [] => (-1)%Z
  | x :: l' => if p x then k else findIndexFrom p l' (k + 1)%Z
  end.

Definition findIndex {A} (p : A → bool) (l : list A) : Z :=
  findIndexFrom p l 0%Z.

End Js.

(** ** Reference data *)

(** A technique descriptor of [mockHissatsu]. *)
Record Hissatsu := mkHissatsu {
  h_id : Z;
  h_name : string;
  h_type : string
}.

(** An equipment item of [mockEquipment]. *)
Record Equipment := mkEquipment {
  e_id : Z;
  e_name : string;
  e_category : string;
  e_rarity : string;
  e_stats : list (string * Z)
}.

(** A character of [allCharacters]; [hissatsu] may be missing
    ([character.hissatsu || []]). *)
Record Character := mkCharacter {
  c_id : Z;
  c_name : string;
  baseLevel : Z;
  baseRarity : string;
  hissatsu : option (list Hissatsu)
}.

(** ** Component state: the nine [useState] variables, and the toast log *)

Record State := mkState {
  currentCharacterIndex : option Z;
  userLevel : Z;
  userRarity : string;
  selectedEquipment : gmap string (option Equipment);
  selectedHissatsu : list (option Hissatsu);
  showEquipmentList : bool;
  showHissatsuList : bool;
  selectedCategory : option string;
  hissatsuSlotIndex : option Z;
  (** Not a state variable: the messages handed to [toast.success] so
      far, oldest first. *)
  toasts : list string
}.

(** The object literal [{boots: null, bracelet: null, pendant: null,
    special: null}]. *)
Definition emptyEquipment : gmap string (option Equipment) :=
  <["boots" := None]> (<["bracelet" := None]>
    (<["pendant" := None]> (<["special" := None]> ∅))).

Definition equipmentCategories : list string :=
  ["boots"; "bracelet"; "pendant"; "special"].

(** Outcome of calling a function: it returns, or it throws.  The three
    error kinds are the ones the specification names. *)
Inductive ErrorKind := InvalidInput | CapacityExceeded | IndexOutOfRange.

Inductive Completion (A : Type) :=
| Normal (a : A)
| Throw (e : ErrorKind).
Arguments Normal {A} a.
Arguments Throw {A} e.

Section CharacterModal.

(** Props of the component, and the imported [calculateStats] of
    [../data/mock], which is a pure function of its four arguments. *)
Variable allCharacters : list Character.
Variable StatBlock : Type.
Variable calculateStats :
  option Character → gmap string (option Equipment) → Z → string → StatBlock.

(** Initial values of the state variables for the prop [character]. *)
Definition initialState (character : Character) : State :=
  {| currentCharacterIndex :=
       Some (Js.findIndex (λ c, bool_decide (c_id c = c_id character))
               allCharacters);
     userLevel := baseLevel character;
     userRarity := baseRarity character;
     selectedEquipment := emptyEquipment;
     selectedHissatsu := Some <$> default [] (hissatsu character);
     showEquipmentList := false;
     showHissatsuList := false;
     selectedCategory := None;
     hissatsuSlotIndex := None;
     toasts := [] |}.

Definition currentCharacter (s : State) : option Character :=
  Js.index allCharacters (currentCharacterIndex s).

Definition calculatedStats (s : State) : StatBlock :=
  calculateStats (currentCharacter s) (selectedEquipment s)
    (userLevel s) (userRarity s).

(** [navigateCharacter(direction)]: any direction other than ['next']
    takes the backward branch. *)
Definition navigateCharacter (direction : string) (s : State) : State :=
  let len := Z.of_nat (length allCharacters) in
  let newIndex :=
    if decide (direction = "next")
    then i ← currentCharacterIndex s; Js.rem (i + 1) len
    else i ← currentCharacterIndex s; Js.rem (i - 1 + len) len in
  {| currentCharacterIndex := newIndex;
     userLevel := 99;
     userRarity := "Legendary";
     selectedEquipment := emptyEquipment;
     selectedHissatsu := selectedHissatsu s;
     showEquipmentList := showEquipmentList s;
     showHissatsuList := showHissatsuList s;
     selectedCategory := selectedCategory s;
     hissatsuSlotIndex := hissatsuSlotIndex s;
     toasts := toasts s |}.

(** The computed key [[selectedCategory]]: [null] converts to the
    property name ["null"]. *)
Definition categoryKey (c : option string) : string := default "null" c.

(** [handleEquipmentSelect(equipment)]: spread of the previous object,
    then the computed key; the equipment list closes and a toast is
    shown. *)
Definition handleEquipmentSelect (equipment : Equipment) (s : State)
  : State :=
  {| currentCharacterIndex := currentCharacterIndex s;
     userLevel := userLevel s;
     userRarity := userRarity s;
     selectedEquipment :=
       <[categoryKey (selectedCategory s) := Some equipment]>
         (selectedEquipment s);
     selectedHissatsu := selectedHissatsu s;
     showEquipmentList := false;
     showHissatsuList := showHissatsuList s;
     selectedCategory := None;
     hissatsuSlotIndex := hissatsuSlotIndex s;
     toasts := toasts s ++ [e_name equipment +:+ " equipped!"] |}.

(** The [onClick] of an equipment slot (lines 323-326): opens the
    equipment list for that slot's category. *)
Definition onSlotClick (category : string) (s : State) : State :=
  {| currentCharacterIndex := currentCharacterIndex s;
     userLevel := userLevel s;
     userRarity := userRarity s;
     selectedEquipment := selectedEquipment s;
     selectedHissatsu := selectedHissatsu s;
     showEquipmentList := true;
     showHissatsuList := showHissatsuList s;
     selectedCategory := Some category;
     hissatsuSlotIndex := hissatsuSlotIndex s;
     toasts := toasts s |}.

(** [handleHissatsuSelect(hissatsu)]. *)
Definition handleHissatsuSelect (hissatsu : Hissatsu) (s : State) : State :=
  match hissatsuSlotIndex s with
  | Some i =>
      let newHissatsu := Js.assign (selectedHissatsu s) i hissatsu in
      {| currentCharacterIndex := currentCharacterIndex s;
         userLevel := userLevel s;
         userRarity := userRarity s;
         selectedEquipment := selectedEquipment s;
         selectedHissatsu := newHissatsu;
         showEquipmentList := showEquipmentList s;
         showHissatsuList := false;
         selectedCategory := selectedCategory s;
         hissatsuSlotIndex := None;
         toasts := toasts s |}
  | None => s
  end.

(** [handleRemoveHissatsu(index)]. *)
Definition handleRemoveHissatsu (index : Z) (s : State) : State :=
  let newHissatsu := Js.splice (selectedHissatsu s) index 1 in
  {| currentCharacterIndex := currentCharacterIndex s;
     userLevel := userLevel s;
     userRarity := userRarity s;
     selectedEquipment := selectedEquipment s;
     selectedHissatsu := newHissatsu;
     showEquipmentList := showEquipmentList s;
     showHissatsuList := showHissatsuList s;
     selectedCategory := selectedCategory s;
     hissatsuSlotIndex := hissatsuSlotIndex s;
     toasts := toasts s |}.

(** [handleAddHissatsu()]. *)
Definition handleAddHissatsu (s : State) : State :=
  if decide (length (selectedHissatsu s) < 4) then
    {| currentCharacterIndex := currentCharacterIndex s;
       userLevel := userLevel s;
       userRarity := userRarity s;
       selectedEquipment := selectedEquipment s;
       selectedHissatsu := selectedHissatsu s;
       showEquipmentList := showEquipmentList s;
       showHissatsuList := true;
       selectedCategory := selectedCategory s;
       hissatsuSlotIndex := Some (Z.of_nat (length (selectedHissatsu s)));
       toasts := toasts s |}
  else s.

(** [handleChangeHissatsu(index)]. *)
Definition handleChangeHissatsu (index : Z) (s : State) : State :=
  {| currentCharacterIndex := currentCharacterIndex s;
     userLevel := userLevel s;
     userRarity := userRarity s;
     selectedEquipment := selectedEquipment s;
     selectedHissatsu := selectedHissatsu s;
     showEquipmentList := showEquipmentList s;
     showHissatsuList := true;
     selectedCategory := selectedCategory s;
     hissatsuSlotIndex := Some index;
     toasts := toasts s |}.

(** None of the handlers of this section contains a [throw] or calls
    anything that throws on the modelled arguments: a call of one of
    them always completes normally, with the state its setters
    produced. *)
Definition invoke (handler : State → State) (s : State) : Completion State :=
  Normal (handler s).

(** Equipping through the dialog: click the slot of [category], then
    pick [equipment] from the list that opens. *)
Definition equip (category : string) (equipment : Equipment) (s : State)
  : State :=
  handleEquipmentSelect equipment (onSlotClick category s).

(** Adding through the dialog: click "Add", then pick [hissatsu]; the
    technique list is rendered only while [showHissatsuList] holds. *)
Definition addTechnique (hissatsu : Hissatsu) (s : State) : State :=
  let s1 := handleAddHissatsu s in
  if showHissatsuList s1 then handleHissatsuSelect hissatsu s1 else s1.

(** Replacing through the dialog: click the change button of entry
    [index], then pick [hissatsu]. *)
Definition replaceTechnique (index : Z) (hissatsu : Hissatsu) (s : State)
  : State :=
  handleHissatsuSelect hissatsu (handleChangeHissatsu index s).

End CharacterModal.

Arguments initialState allCharacters character : assert.
Arguments calculatedStats allCharacters {StatBlock} calculateStats s : assert.

(** ** StatEngine *)

Section StatEngine.

(** The stat block and its scaling formula are left open by the
    specification ("an implementation choice"). *)
Variable StatBlock : Type.
Variable scaledStats :
  Character → gmap string (option Equipment) → Z → string → StatBlock.

Definition knownRarities : list string :=
  ["Common"; "Rare"; "Epic"; "Legendary"].

(** Modelled from the spec: [calculateStats] is imported from
    [../data/mock], which is not among the sources; section 4.1 gives
    its contract [computeStats(character, loadout, level, rarity)]: it
    fails with [InvalidInput] when the level is outside [1, 99] or the
    rarity is not one of the four tiers, and otherwise returns the
    scaled stat block, whatever the equipment slots hold. *)
Definition computeStats (character : Character)
    (loadout : gmap string (option Equipment)) (level : Z) (rarity : string)
  : Completion StatBlock :=
  if decide ((1 ≤ level ≤ 99)%Z ∧ rarity ∈ knownRarities)
  then Normal (scaledStats character loadout level rarity)
  else Throw InvalidInput.

End StatEngine.

(** ** Properties of states used in the statements *)

(** A completely fresh loadout: four empty slots and no technique. *)
Definition freshLoadout (s : State) : Prop :=
  (∀ c, c ∈ equipmentCategories → selectedEquipment s !! c = Some None)
  ∧ selectedHissatsu s = [].

(** Level and rarity are the base values of the character now shown. *)
Definition baseDefaultsRestored (allCharacters : list Character) (s : State)
  : Prop :=
  ∀ c, currentCharacter allCharacters s = Some c →
       userLevel s = baseLevel c ∧ userRarity s = baseRarity c.

(** Adding to a list of four entries fails with [CapacityExceeded], the
    list keeping its four entries; adding to a shorter list appends. *)
Definition addRejectedAtCapacity (hissatsu : Hissatsu) (s : State) : Prop :=
  (length (selectedHissatsu s) = 4 →
     invoke (addTechnique hissatsu) s = Throw CapacityExceeded
     ∧ length (selectedHissatsu (addTechnique hissatsu s)) = 4)
  ∧ (length (selectedHissatsu s) < 4 →
       selectedHissatsu (addTechnique hissatsu s)
       = selectedHissatsu s ++ [Some hissatsu]).

(** Replacing and removing at an index outside the list both fail with
    [IndexOutOfRange] and leave the list as it is. *)
Definition indexChecked (index : Z) (hissatsu : Hissatsu) (s : State) : Prop :=
  ¬ (0 ≤ index < Z.of_nat (length (selectedHissatsu s)))%Z →
  (invoke (replaceTechnique index hissatsu) s = Throw IndexOutOfRange
   ∧ selectedHissatsu (replaceTechnique index hissatsu s) = selectedHissatsu s)
  ∧ (invoke (handleRemoveHissatsu index) s = Throw IndexOutOfRange
     ∧ selectedHissatsu (handleRemoveHissatsu index s) = selectedHissatsu s).

(** A run of navigation clicks, oldest first. *)
Definition navigateMany (allCharacters : list Character)
    (directions : list string) (s : State) : State :=
  foldl (λ st d, navigateCharacter allCharacters d st) s directions.

(** The current index points into [allCharacters]. *)
Definition indexInRange (allCharacters : list Character) (s : State) : Prop :=
  ∃ i, currentCharacterIndex s = Some i
       ∧ (0 ≤ i < Z.of_nat (length allCharacters))%Z.

(** ** Sample data *)

Module Sample.

Definition fireTornado : Hissatsu := mkHissatsu 1 "Fire Tornado" "Shot".
Definition godHand : Hissatsu := mkHissatsu 2 "God Hand" "Catch".
Definition theWall : Hissatsu := mkHissatsu 3 "The Wall" "Block".
Definition heavenDrive : Hissatsu := mkHissatsu 4 "Heaven Drive" "Dribble".
Definition dragonCrash : Hissatsu := mkHissatsu 5 "Dragon Crash" "Shot".

Definition speedBoots : Equipment :=
  mkEquipment 10 "Speed Boots" "boots" "Rare" [("agility", 15%Z)].
Definition powerBoots : Equipment :=
  mkEquipment 11 "Power Boots" "boots" "Epic" [("kick", 20%Z)].

Definition striker : Character :=
  mkCharacter 100 "Axel" 99 "Legendary" (Some [fireTornado]).
Definition keeper : Character :=
  mkCharacter 101 "Mark" 50 "Rare" (Some [godHand]).
Definition defender : Character :=
  mkCharacter 102 "Jack" 30 "Common" None.

Definition roster : list Character := [striker; keeper; defender].

(** A state whose technique list holds [l], everything else as at the
    opening of the dialog on [striker]. *)
Definition withTechniques (l : list Hissatsu) : State :=
  {| currentCharacterIndex := Some 0%Z;
     userLevel := 99;
     userRarity := "Legendary";
     selectedEquipment := emptyEquipment;
     selectedHissatsu := Some <$> l;
     showEquipmentList := false;
     showHissatsuList := false;
     selectedCategory := None;
     hissatsuSlotIndex := None;
     toasts := [] |}.

Definition fullState : State :=
  withTechniques [fireTornado; godHand; theWall; heavenDrive].

Definition singleState : State := withTechniques [godHand].

End Sample.

(** ** Display helpers *)

(** [getPositionColor(position)]. *)
Definition getPositionColor (position : string) : string :=
  if decide (position = "FW") then "bg-red-500 text-white"
  else if decide (position = "MF") then "bg-orange-500 text-white"
  else if decide (position = "DF") then "bg-sky-400 text-white"
  else if decide (position = "GK") then "bg-white text-black"
  else "bg-gray-500 text-white".

(** [getStatColor(position)]. *)
Definition getStatColor (position : string) : string :=
  if decide (position = "FW") then "text-red-400"
  else if decide (position = "MF") then "text-orange-400"
  else if decide (position = "DF") then "text-sky-400"
  else if decide (position = "GK") then "text-white"
  else "text-gray-400".

(** [getRarityColor(rarity)]. *)
Definition getRarityColor (rarity : string) : string :=
  if decide (rarity = "Legendary")
  then "bg-gradient-to-r from-yellow-400 to-orange-500"
  else if decide (rarity = "Epic")
  then "bg-gradient-to-r from-purple-500 to-pink-500"
  else if decide (rarity = "Rare")
  then "bg-gradient-to-r from-blue-500 to-cyan-500"
  else if decide (rarity = "Common")
  then "bg-gradient-to-r from-gray-400 to-gray-600"
  else "bg-gray-500".

(** The background of the character header (line 223). *)
Definition headerBackground (userRarity : string) : string :=
  if decide (userRarity = "Legendary")
  then "bg-gradient-to-r from-yellow-400 to-orange-500"
  else "bg-gradient-to-r from-cyan-500 to-teal-600".

Definition positions : list string := ["FW"; "MF"; "DF"; "GK"].

(** The options of the two selects (lines 252 and 267-270). *)
Definition levelOptions : list Z := (λ i, (Z.of_nat i + 1)%Z) <$> seq 0 99.

Definition rarityOptions : list string :=
  ["Common"; "Rare"; "Epic"; "Legendary"].

(** ** The dialog as a machine driven by user events *)

Global Instance Hissatsu_eq_dec : EqDecision Hissatsu.
Proof. solve_decision. Defined.

Global Instance Equipment_eq_dec : EqDecision Equipment.
Proof. solve_decision. Defined.

(** What the user can do to the rendered dialog.  [SelectLevel level]
    picks the option whose value is the decimal text of [level], which
    [parseInt] reads back; [ClickChange] and [ClickRemove] carry the
    position of the entry whose button is clicked. *)
Inductive Event :=
| ClickPrev
| ClickNext
| SelectLevel (level : Z)
| SelectRarity (rarity : string)
| ClickSlot (category : string)
| CloseEquipmentList
| ClickEquipment (equipment : Equipment)
| ClickAdd
| ClickChange (index : nat)
| ClickRemove (index : nat)
| CloseHissatsuList
| ClickHissatsu (hissatsu : Hissatsu)
| ClickAddToTeam.

(** The setters called directly from the markup. *)
Definition setUserLevel (level : Z) (s : State) : State :=
  {| currentCharacterIndex := currentCharacterIndex s;
     userLevel := level;
     userRarity := userRarity s;
     selectedEquipment := selectedEquipment s;
     selectedHissatsu := selectedHissatsu s;
     showEquipmentList := showEquipmentList s;
     showHissatsuList := showHissatsuList s;
     selectedCategory := selectedCategory s;
     hissatsuSlotIndex := hissatsuSlotIndex s;
     toasts := toasts s |}.

Definition setUserRarity (rarity : string) (s : State) : State :=
  {| currentCharacterIndex := currentCharacterIndex s;
     userLevel := userLevel s;
     userRarity := rarity;
     selectedEquipment := selectedEquipment s;
     selectedHissatsu := selectedHissatsu s;
     showEquipmentList := showEquipmentList s;
     showHissatsuList := showHissatsuList s;
     selectedCategory := selectedCategory s;
     hissatsuSlotIndex := hissatsuSlotIndex s;
     toasts := toasts s |}.

Definition setShowEquipmentList (show : bool) (s : State) : State :=
  {| currentCharacterIndex := currentCharacterIndex s;
     userLevel := userLevel s;
     userRarity := userRarity s;
     selectedEquipment := selectedEquipment s;
     selectedHissatsu := selectedHissatsu s;
     showEquipmentList := show;
     showHissatsuList := showHissatsuList s;
     selectedCategory := selectedCategory s;
     hissatsuSlotIndex := hissatsuSlotIndex s;
     toasts := toasts s |}.

Definition setShowHissatsuList (show : bool) (s : State) : State :=
  {| currentCharacterIndex := currentCharacterIndex s;
     userLevel := userLevel s;
     userRarity := userRarity s;
     selectedEquipment := selectedEquipment s;
     selectedHissatsu := selectedHissatsu s;
     showEquipmentList := showEquipmentList s;
     showHissatsuList := show;
     selectedCategory := selectedCategory s;
     hissatsuSlotIndex := hissatsuSlotIndex s;
     toasts := toasts s |}.

(** JavaScript truthiness of a string or [null]. *)
Definition truthy (c : option string) : bool :=
  match c with
  | Some c => bool_decide (c ≠ "")
  | None => false
  end.

Section Dialog.

(** The props and the two catalogues imported from [../data/mock]. *)
Variable allCharacters : list Character.
Variable mockEquipment : gmap string (list Equipment).
Variable mockHissatsu : list Hissatsu.

(** The text a template literal gives for a number, the language's own
    [Number::toString]; taken as given. *)
Variable numberToString : Z → string.

(** [addToTeam()].  Reading [currentCharacter.name] of an undefined
    character throws a [TypeError] before anything is shown: [None]. *)
Definition addToTeam (s : State) : option State :=
  match currentCharacter allCharacters s with
  | Some c =>
      Some
      {| currentCharacterIndex := currentCharacterIndex s;
         userLevel := userLevel s;
         userRarity := userRarity s;
         selectedEquipment := selectedEquipment s;
         selectedHissatsu := selectedHissatsu s;
         showEquipmentList := showEquipmentList s;
         showHissatsuList := showHissatsuList s;
         selectedCategory := selectedCategory s;
         hissatsuSlotIndex := hissatsuSlotIndex s;
         toasts :=
           toasts s
           ++ [c_name c +:+ " (Lv." +:+ numberToString (userLevel s)
               +:+ ") added to team!"] |}
  | None => None
  end.

(** The items listed by the equipment overlay:
    [mockEquipment[selectedCategory]?.map(...)]. *)
Definition listedEquipment (s : State) : list Equipment :=
  default [] (mockEquipment !! categoryKey (selectedCategory s)).

(** Whether the control behind an event exists in the rendered markup
    and is not disabled.  Nothing is rendered without a current character
    (line 197); the overlays exist only while their flags hold; the
    buttons of a technique exist only for an entry that holds an item. *)
Definition enabled (s : State) (ev : Event) : bool :=
  bool_decide (is_Some (currentCharacter allCharacters s))
  && match ev with
     | ClickPrev | ClickNext | ClickAddToTeam => true
     | SelectLevel level => bool_decide (level ∈ levelOptions)
     | SelectRarity rarity => bool_decide (rarity ∈ rarityOptions)
     | ClickSlot category =>
         bool_decide (is_Some (selectedEquipment s !! category))
     | CloseEquipmentList =>
         showEquipmentList s && truthy (selectedCategory s)
     | ClickEquipment equipment =>
         showEquipmentList s && truthy (selectedCategory s)
         && bool_decide (equipment ∈ listedEquipment s)
     | ClickAdd => bool_decide (¬ (4 ≤ length (selectedHissatsu s))%nat)
     | ClickChange index | ClickRemove index =>
         bool_decide (is_Some (mjoin (selectedHissatsu s !! index)))
     | CloseHissatsuList => showHissatsuList s
     | ClickHissatsu hissatsu =>
         showHissatsuList s && bool_decide (hissatsu ∈ mockHissatsu)
     end.

(** The handler wired to each control.  A handler that throws has called
    no setter: the state stays as it was. *)
Definition fire (ev : Event) (s : State) : State :=
  match ev with
  | ClickPrev => navigateCharacter allCharacters "prev" s
  | ClickNext => navigateCharacter allCharacters "next" s
  | SelectLevel level => setUserLevel level s
  | SelectRarity rarity => setUserRarity rarity s
  | ClickSlot category => onSlotClick category s
  | CloseEquipmentList => setShowEquipmentList false s
  | ClickEquipment equipment => handleEquipmentSelect equipment s
  | ClickAdd => handleAddHissatsu s
  | ClickChange index => handleChangeHissatsu (Z.of_nat index) s
  | ClickRemove index => handleRemoveHissatsu (Z.of_nat index) s
  | CloseHissatsuList => setShowHissatsuList false s
  | ClickHissatsu hissatsu => handleHissatsuSelect hissatsu s
  | ClickAddToTeam => default s (addToTeam s)
  end.

(** An event on a control that does not exist changes nothing. *)
Definition dispatch (ev : Event) (s : State) : State :=
  if enabled s ev then fire ev s else s.

(** A session: the events in the order they happen. *)
Definition run (events : list Event) (s : State) : State :=
  foldl (λ st ev, dispatch ev st) s events.

(** No technique is removed while the technique overlay is open. *)
Fixpoint removesWhileClosed (events : list Event) (s : State) : Prop :=
  match events with
  | [] => True
  | ev :: events' =>
      (match ev with
       | ClickRemove _ => showHissatsuList s = false
       | _ => True
       end)
      ∧ removesWhileClosed events' (dispatch ev s)
  end.

End Dialog.

(** Every entry of the technique list holds an item. *)
Definition noEmptyEntry (s : State) : Prop :=
  Forall is_Some (selectedHissatsu s).

(** ** Array primitives *)

Section JsArrays.
Context {A : Type}.
Implicit Types (l : list A) (i : Z).

Lemma splice_one_in_range l i :
  (0 ≤ i < Z.of_nat (length l))%Z →
  Js.splice l i 1 = delete (Z.to_nat i) l.
Proof.
  intros Hi. unfold Js.splice.
  destruct (decide (i < 0)%Z) as [Hneg|_]; [lia|].
  rewrite Z.min_l by lia.
  replace (Z.min (Z.max 1 0) (Z.of_nat (length l) - i)) with 1%Z by lia.
  rewrite delete_take_drop.
  replace (Z.to_nat (i + 1)) with (S (Z.to_nat i)) by lia.
  reflexivity.
Qed.

Lemma splice_one_past_end l i :
  (Z.of_nat (length l) ≤ i)%Z → Js.splice l i 1 = l.
Proof.
  intros Hi. unfold Js.splice.
  destruct (decide (i < 0)%Z) as [Hneg|_]; [lia|].
  rewrite Z.min_r by lia.
  replace (Z.min (Z.max 1 0) (Z.of_nat (length l) - Z.of_nat (length l)))
    with 0%Z by lia.
  rewrite Z.add_0_r, Nat2Z.id, take_ge, drop_ge, app_nil_r by lia.
  reflexivity.
Qed.

Lemma splice_one_negative l i :
  (i < 0)%Z →
  Js.splice l i 1
  = delete (Z.to_nat (Z.max (Z.of_nat (length l) + i) 0)) l.
Proof.
  intros Hi. unfold Js.splice.
  destruct (decide (i < 0)%Z) as [_|Hpos]; [|lia].
  set (start := Z.max (Z.of_nat (length l) + i) 0).
  destruct l as [|x l'] eqn:El.
  - simpl. by rewrite take_nil, drop_nil.
  - rewrite <- El in *.
    assert (0 ≤ start < Z.of_nat (length l))%Z as Hs.
    { subst start. rewrite El. simpl length. lia. }
    replace (Z.min (Z.max 1 0) (Z.of_nat (length l) - start)) with 1%Z by lia.
    rewrite delete_take_drop.
    replace (Z.to_nat (start + 1)) with (S (Z.to_nat start)) by lia.
    reflexivity.
Qed.

Lemma assign_past_end (l : list (option A)) i v :
  (Z.of_nat (length l) ≤ i < Js.maxArrayLength)%Z →
  Js.assign l i v
  = l ++ replicate (Z.to_nat i - length l) None ++ [Some v].
Proof.
  intros Hi. unfold Js.assign.
  destruct (decide (i < 0)%Z); [lia|].
  destruct (decide (Z.to_nat i < length l)); [lia|].
  destruct (decide (Js.maxArrayLength ≤ i)%Z); [lia|]. reflexivity.
Qed.

Lemma assign_at_end (l : list (option A)) v :
  (Z.of_nat (length l) < Js.maxArrayLength)%Z →
  Js.assign l (Z.of_nat (length l)) v = l ++ [Some v].
Proof.
  intros Hl. rewrite assign_past_end by lia.
  by rewrite Nat2Z.id, Nat.sub_diag.
Qed.

Lemma assign_not_an_index (l : list (option A)) i v :
  (Z.of_nat (length l) ≤ i)%Z → (Js.maxArrayLength ≤ i)%Z →
  Js.assign l i v = l.
Proof.
  intros Hl Hi. unfold Js.assign.
  destruct (decide (i < 0)%Z); [done|].
  destruct (decide (Z.to_nat i < length l)); [lia|].
  by destruct (decide (Js.maxArrayLength ≤ i)%Z).
Qed.

Lemma assign_negative (l : list (option A)) i v :
  (i < 0)%Z → Js.assign l i v = l.
Proof. intros Hi. unfold Js.assign. by destruct (decide (i < 0)%Z). Qed.

End JsArrays.

(** ** Navigation *)

Section Navigation.
Variable allCharacters : list Character.
Local Abbreviation len := (Z.of_nat (length allCharacters)).
Implicit Types (s : State) (i : Z).

Lemma navigate_next_index s i :
  currentCharacterIndex s = Some i → (0 ≤ i)%Z → (1 ≤ len)%Z →
  currentCharacterIndex (navigateCharacter allCharacters "next" s)
  = Some ((i + 1) `mod` len)%Z.
Proof.
  intros Hs Hi Hn. unfold navigateCharacter. simpl.
  rewrite Hs. simpl. unfold Js.rem.
  destruct (decide (len = 0%Z)); [lia|].
  by rewrite Z.rem_mod_nonneg by lia.
Qed.

Lemma navigate_back_index (direction : string) s i :
  direction ≠ "next" →
  currentCharacterIndex s = Some i → (0 ≤ i)%Z → (1 ≤ len)%Z →
  currentCharacterIndex (navigateCharacter allCharacters direction s)
  = Some ((i - 1 + len) `mod` len)%Z.
Proof.
  intros Hd Hs Hi Hn. unfold navigateCharacter.
  destruct (decide (direction = "next")); [done|]. simpl.
  rewrite Hs. simpl. unfold Js.rem.
  destruct (decide (len = 0%Z)); [lia|].
  by rewrite Z.rem_mod_nonneg by lia.
Qed.

Lemma navigate_next_iter s i (k : nat) :
  currentCharacterIndex s = Some i → (0 ≤ i < len)%Z →
  currentCharacterIndex
    (Nat.iter k (navigateCharacter allCharacters "next") s)
  = Some ((i + Z.of_nat k) `mod` len)%Z.
Proof.
  intros Hs Hi. induction k as [|k IH].
  - simpl. by rewrite Hs, Z.add_0_r, Z.mod_small.
  - rewrite Nat.iter_succ.
    rewrite (navigate_next_index _ _ IH); [| apply Z.mod_pos_bound; lia | lia].
    rewrite Z.add_mod_idemp_l by lia.
    do 2 f_equal. lia.
Qed.

Lemma navigate_step_in_range (direction : string) s :
  indexInRange allCharacters s →
  indexInRange allCharacters (navigateCharacter allCharacters direction s).
Proof.
  intros (i & Hs & Hi).
  destruct (decide (direction = "next")) as [->|Hd].
  - exists ((i + 1) `mod` len)%Z. split.
    + apply navigate_next_index; [done | lia | lia].
    + apply Z.mod_pos_bound. lia.
  - exists ((i - 1 + len) `mod` len)%Z. split.
    + apply navigate_back_index; [done | done | lia | lia].
    + apply Z.mod_pos_bound. lia.
Qed.

End Navigation.

(** C7. For a character list of length n >= 1 and a current index i in
    [0, n), navigating forward gives index (i + 1) mod n, navigating
    backward gives (i - 1 + n) mod n, and navigating forward n times
    gives back index i, hence the original character. *)
Theorem navigate_wraps_around (allCharacters : list Character) (s : State)
    (i : Z) :
  let n := Z.of_nat (length allCharacters) in
  (1 ≤ n)%Z →
  currentCharacterIndex s = Some i →
  (0 ≤ i < n)%Z →
  currentCharacterIndex (navigateCharacter allCharacters "next" s)
  = Some ((i + 1) `mod` n)%Z
  ∧ currentCharacterIndex (navigateCharacter allCharacters "prev" s)
    = Some ((i - 1 + n) `mod` n)%Z
  ∧ currentCharacterIndex
      (Nat.iter (length allCharacters)
         (navigateCharacter allCharacters "next") s)
    = Some i
  ∧ currentCharacter allCharacters
      (Nat.iter (length allCharacters)
         (navigateCharacter allCharacters "next") s)
    = currentCharacter allCharacters s.
Proof.
  intros n Hn Hs Hi.
  assert (currentCharacterIndex
            (Nat.iter (length allCharacters)
               (navigateCharacter allCharacters "next") s) = Some i) as Hround.
  { rewrite (navigate_next_iter allCharacters s i _ Hs Hi). fold n.
    f_equal. rewrite <- (Z.mul_1_l n) at 1.
    rewrite Z.mod_add by lia. apply Z.mod_small. lia. }
  repeat split.
  - apply navigate_next_index; [done | lia | done].
  - apply navigate_back_index; [done | done | lia | done].
  - exact Hround.
  - unfold currentCharacter. by rewrite Hround, Hs.
Qed.

Lemma navigate_wraps_around_witness :
  let s := initialState Sample.roster Sample.defender in
  currentCharacterIndex (navigateCharacter Sample.roster "next" s) = Some 0%Z
  ∧ currentCharacterIndex (navigateCharacter Sample.roster "prev" s) = Some 1%Z
  ∧ currentCharacterIndex
      (Nat.iter 3 (navigateCharacter Sample.roster "next") s) = Some 2%Z
  ∧ currentCharacter Sample.roster
      (Nat.iter 3 (navigateCharacter Sample.roster "next") s)
    = currentCharacter Sample.roster s.
Proof.
  apply (navigate_wraps_around Sample.roster
           (initialState Sample.roster Sample.defender) 2%Z).
  - simpl. lia.
  - reflexivity.
  - simpl. lia.
Defined.

(** C10. For a character list of length n >= 1, an index in [0, n) stays
    in [0, n) after any sequence of forward and backward navigations. *)
Theorem navigate_keeps_index_in_range (allCharacters : list Character)
    (directions : list string) (s : State) :
  (1 ≤ length allCharacters)%nat →
  indexInRange allCharacters s →
  indexInRange allCharacters (navigateMany allCharacters directions s).
Proof.
  intros _. revert s. unfold navigateMany.
  induction directions as [|d ds IH]; intros s Hs; simpl.
  - exact Hs.
  - apply IH. by apply navigate_step_in_range.
Qed.

Lemma navigate_keeps_index_in_range_witness :
  indexInRange Sample.roster
    (navigateMany Sample.roster ["prev"; "prev"; "next"; "prev"; "next"; "next"]
       (initialState Sample.roster Sample.striker)).
Proof.
  apply navigate_keeps_index_in_range.
  - simpl. lia.
  - exists 0%Z. split; [reflexivity | simpl; lia].
Defined.

(** ** Technique list *)

(** C5. Removing the technique at a valid index i of a list of length
    L >= 1 gives a list of length L - 1 in which the entries before i
    stay where they were and the entries after i move one place to the
    left, so the remaining entries keep their relative order. *)
Theorem remove_shifts_left (s : State) (i : Z) :
  let l := selectedHissatsu s in
  let l' := selectedHissatsu (handleRemoveHissatsu i s) in
  (0 ≤ i < Z.of_nat (length l))%Z →
  length l' = (length l - 1)%nat
  ∧ (∀ j : nat, (j < Z.to_nat i)%nat → l' !! j = l !! j)
  ∧ (∀ j : nat, (Z.to_nat i ≤ j)%nat → l' !! j = l !! S j)
  ∧ l' = take (Z.to_nat i) l ++ drop (S (Z.to_nat i)) l.
Proof.
  intros l l' Hi. subst l'. unfold handleRemoveHissatsu. simpl. fold l.
  rewrite (splice_one_in_range l i Hi).
  repeat split.
  - rewrite length_delete; [lia|]. apply lookup_lt_is_Some. lia.
  - intros j Hj. by apply list_lookup_delete_lt.
  - intros j Hj. by apply list_lookup_delete_ge.
  - apply delete_take_drop.
Qed.

Lemma remove_shifts_left_witness :
  selectedHissatsu (handleRemoveHissatsu 1 Sample.fullState)
  = Some <$> [Sample.fireTornado; Sample.theWall; Sample.heavenDrive].
Proof.
  pose proof (remove_shifts_left Sample.fullState 1%Z) as H.
  simpl in H. destruct H as (_ & _ & _ & H); [lia|]. exact H.
Defined.

(** ** Equipment *)

Section Equipping.
Implicit Types (category : string) (s : State).

Lemma equip_selectedEquipment category (e : Equipment) s :
  selectedEquipment (equip category e s)
  = <[category := Some e]> (selectedEquipment s).
Proof. reflexivity. Qed.

Lemma equip_twice_selectedEquipment category (a b : Equipment) s :
  selectedEquipment (equip category b (equip category a s))
  = selectedEquipment (equip category b s).
Proof. rewrite !equip_selectedEquipment. apply insert_insert_eq. Qed.

End Equipping.

(** C6. For every category among boots, bracelet, pendant and special,
    equipping item A and then item B into it completes without error and
    leaves the slot holding exactly B; the equipment object is the one
    obtained by equipping B alone, and the computed stats are
    [calculateStats] of the unchanged character, level and rarity and of
    the previous equipment with B in that slot: A contributes nothing. *)
Theorem equip_last_write_wins (allCharacters : list Character)
    (StatBlock : Type)
    (calculateStats :
       option Character → gmap string (option Equipment) → Z → string
       → StatBlock)
    (category : string) (a b : Equipment) (s : State) :
  category ∈ equipmentCategories →
  let s2 := equip category b (equip category a s) in
  invoke (equip category b) (equip category a s) = Normal s2
  ∧ selectedEquipment s2 !! category = Some (Some b)
  ∧ selectedEquipment s2 = selectedEquipment (equip category b s)
  ∧ selectedEquipment s2 = <[category := Some b]> (selectedEquipment s)
  ∧ calculatedStats allCharacters calculateStats s2
    = calculatedStats allCharacters calculateStats (equip category b s)
  ∧ calculatedStats allCharacters calculateStats s2
    = calculateStats (currentCharacter allCharacters s)
        (<[category := Some b]> (selectedEquipment s))
        (userLevel s) (userRarity s).
Proof.
  intros _ s2.
  assert (selectedEquipment s2 = <[category := Some b]> (selectedEquipment s))
    as Hslots.
  { subst s2. rewrite !equip_selectedEquipment. apply insert_insert_eq. }
  repeat split.
  - rewrite Hslots. apply lookup_insert_eq.
  - apply equip_twice_selectedEquipment.
  - exact Hslots.
  - unfold calculatedStats. subst s2.
    by rewrite equip_twice_selectedEquipment.
  - unfold calculatedStats. by rewrite Hslots.
Qed.

Lemma equip_last_write_wins_witness :
  let s := initialState Sample.roster Sample.striker in
  let s2 := equip "boots" Sample.powerBoots (equip "boots" Sample.speedBoots s) in
  invoke (equip "boots" Sample.powerBoots) (equip "boots" Sample.speedBoots s)
  = Normal s2
  ∧ selectedEquipment s2 !! "boots" = Some (Some Sample.powerBoots)
  ∧ selectedEquipment s2
    = selectedEquipment (equip "boots" Sample.powerBoots s)
  ∧ selectedEquipment s2
    = <["boots" := Some Sample.powerBoots]> (selectedEquipment s)
  ∧ calculatedStats Sample.roster (λ _ eq _ _, eq) s2
    = calculatedStats Sample.roster (λ _ eq _ _, eq)
        (equip "boots" Sample.powerBoots s)
  ∧ calculatedStats Sample.roster (λ _ eq _ _, eq) s2
    = <["boots" := Some Sample.powerBoots]> (selectedEquipment s).
Proof.
  apply (equip_last_write_wins Sample.roster _ (λ _ eq _ _, eq) "boots").
  unfold equipmentCategories. apply list_elem_of_here.
Defined.

(** C9. Equipping an item into one category changes only that slot: every
    other equipment slot, the level, the rarity and the technique list
    are the same after the equip operation as before it. *)
Theorem equip_frame (category other : string) (e : Equipment) (s : State) :
  other ≠ category →
  let s' := equip category e s in
  selectedEquipment s' !! other = selectedEquipment s !! other
  ∧ userLevel s' = userLevel s
  ∧ userRarity s' = userRarity s
  ∧ selectedHissatsu s' = selectedHissatsu s.
Proof.
  intros Hne s'. subst s'. repeat split.
  rewrite equip_selectedEquipment. by apply lookup_insert_ne.
Qed.

Lemma equip_frame_witness :
  let s := initialState Sample.roster Sample.keeper in
  let s' := equip "boots" Sample.speedBoots s in
  selectedEquipment s' !! "pendant" = selectedEquipment s !! "pendant"
  ∧ userLevel s' = userLevel s
  ∧ userRarity s' = userRarity s
  ∧ selectedHissatsu s' = selectedHissatsu s.
Proof.
  apply (equip_frame "boots" "pendant" Sample.speedBoots
           (initialState Sample.roster Sample.keeper)).
  discriminate.
Defined.

(** ** Reset on navigation *)

Lemma emptyEquipment_lookup (c : string) :
  c ∈ equipmentCategories → emptyEquipment !! c = Some None.
Proof.
  unfold equipmentCategories. intros Hc.
  repeat (apply elem_of_cons in Hc as [->|Hc]; [reflexivity|]).
  by apply elem_of_nil in Hc.
Qed.

Lemma navigate_keeps_hissatsu (allCharacters : list Character)
    (direction : string) (s : State) :
  selectedHissatsu (navigateCharacter allCharacters direction s)
  = selectedHissatsu s.
Proof. reflexivity. Qed.

(** C1. The claim asks for an empty technique list after every character
    switch; the handler, which resets level, rarity and equipment "for
    new character", leaves the list alone.  Opened on the first
    character, who brings one technique, and navigated forward, the
    dialog shows the second character with the first character's
    technique: the list is neither empty nor the second character's own,
    while the four equipment slots are cleared. *)
Theorem navigate_leaves_previous_techniques :
  currentCharacter Sample.roster
    (navigateCharacter Sample.roster "next"
       (initialState Sample.roster Sample.striker))
  = Some Sample.keeper
  ∧ selectedHissatsu
      (navigateCharacter Sample.roster "next"
         (initialState Sample.roster Sample.striker))
    = [Some Sample.fireTornado]
  ∧ selectedHissatsu
      (navigateCharacter Sample.roster "next"
         (initialState Sample.roster Sample.striker))
    ≠ selectedHissatsu (initialState Sample.roster Sample.keeper)
  ∧ selectedEquipment
      (navigateCharacter Sample.roster "next"
         (initialState Sample.roster Sample.striker))
    = emptyEquipment
  ∧ ¬ freshLoadout
        (navigateCharacter Sample.roster "next"
           (initialState Sample.roster Sample.striker)).
Proof.
  split; [reflexivity|]. split; [reflexivity|]. split; [discriminate|].
  split; [reflexivity|].
  intros [_ H]. rewrite navigate_keeps_hissatsu in H. discriminate H.
Qed.

(** The part of the reset that the handler performs: after a switch in
    either direction, boots, bracelet, pendant and special hold no
    item. *)
Lemma navigate_clears_equipment (allCharacters : list Character)
    (direction : string) (s : State) (c : string) :
  c ∈ equipmentCategories →
  selectedEquipment (navigateCharacter allCharacters direction s) !! c
  = Some None.
Proof. intros Hc. simpl. by apply emptyEquipment_lookup. Qed.

(** C2, as stated, fails: navigating to a character whose base level is
    50 and whose base rarity is Rare leaves level 99 and Legendary. *)
Lemma navigate_base_defaults_counterexample :
  ¬ baseDefaultsRestored Sample.roster
      (navigateCharacter Sample.roster "next"
         (initialState Sample.roster Sample.striker))
  ∧ currentCharacter Sample.roster
      (navigateCharacter Sample.roster "next"
         (initialState Sample.roster Sample.striker))
    = Some Sample.keeper
  ∧ userLevel
      (navigateCharacter Sample.roster "next"
         (initialState Sample.roster Sample.striker))
    = 99%Z.
Proof.
  split; [|split; reflexivity].
  intros H. destruct (H Sample.keeper eq_refl) as [Hlevel _].
  discriminate Hlevel.
Qed.

(** C2, amended. On every navigation the level is set to 99 and the
    rarity to Legendary, whatever the base level and base rarity of the
    newly selected character; they agree with that character's base
    values exactly when these are 99 and Legendary. *)
Theorem navigate_sets_max_level_and_rarity (allCharacters : list Character)
    (direction : string) (s : State) :
  let s' := navigateCharacter allCharacters direction s in
  userLevel s' = 99%Z
  ∧ userRarity s' = "Legendary"
  ∧ (baseDefaultsRestored allCharacters s'
     ↔ ∀ c, currentCharacter allCharacters s' = Some c →
            baseLevel c = 99%Z ∧ baseRarity c = "Legendary").
Proof.
  intros s'. split; [reflexivity|]. split; [reflexivity|].
  unfold baseDefaultsRestored.
  split; intros H c Hc; destruct (H c Hc) as [H1 H2];
    change (userLevel s') with 99%Z in *;
    change (userRarity s') with "Legendary" in *; split; congruence.
Qed.

(** ** Capacity and index handling of the technique list *)

(** C3, as stated, fails: with four techniques selected, the attempt to
    add a fifth returns normally, with the state as it was. *)
Lemma add_at_capacity_counterexample :
  ¬ addRejectedAtCapacity Sample.dragonCrash Sample.fullState
  ∧ invoke handleAddHissatsu Sample.fullState = Normal Sample.fullState
  ∧ invoke (addTechnique Sample.dragonCrash) Sample.fullState
    = Normal Sample.fullState.
Proof.
  split; [|split; reflexivity].
  intros [H _]. destruct (H eq_refl) as [Hthrow _]. discriminate Hthrow.
Qed.

(** C3, amended. When the technique list already has 4 entries, the
    attempt to add is silently ignored: the handler returns normally, no
    error is raised and the state, hence the list of length 4, is
    unchanged.  With fewer than 4 entries, adding appends the chosen
    technique at the next free index, the current length. *)
Theorem add_respects_capacity (hissatsu : Hissatsu) (s : State) :
  let l := selectedHissatsu s in
  (length l = 4 →
     invoke handleAddHissatsu s = Normal s
     ∧ handleAddHissatsu s = s
     ∧ length (selectedHissatsu (handleAddHissatsu s)) = 4)
  ∧ (length l < 4 →
       invoke (addTechnique hissatsu) s = Normal (addTechnique hissatsu s)
       ∧ selectedHissatsu (addTechnique hissatsu s) = l ++ [Some hissatsu]
       ∧ selectedHissatsu (addTechnique hissatsu s) !! length l
         = Some (Some hissatsu)
       ∧ length (selectedHissatsu (addTechnique hissatsu s)) = S (length l)).
Proof.
  intros l. split.
  - intros Hfull.
    assert (handleAddHissatsu s = s) as Hsame.
    { unfold handleAddHissatsu. fold l.
      destruct (decide (length l < 4)); [lia | reflexivity]. }
    unfold invoke. rewrite Hsame. done.
  - intros Hroom.
    assert (selectedHissatsu (addTechnique hissatsu s) = l ++ [Some hissatsu])
      as Happ.
    { unfold addTechnique, handleAddHissatsu. fold l.
      destruct (decide (length l < 4)); [|lia]. simpl.
      apply assign_at_end. unfold Js.maxArrayLength. lia. }
    split; [reflexivity|]. split; [exact Happ|].
    rewrite Happ. split.
    + rewrite lookup_app_r by lia. by rewrite Nat.sub_diag.
    + rewrite length_app. simpl. lia.
Qed.

Lemma add_respects_capacity_witness :
  handleAddHissatsu Sample.fullState = Sample.fullState
  ∧ selectedHissatsu
      (addTechnique Sample.dragonCrash
         (Sample.withTechniques [Sample.godHand; Sample.theWall]))
    = Some <$> [Sample.godHand; Sample.theWall; Sample.dragonCrash].
Proof.
  split.
  - destruct (add_respects_capacity Sample.dragonCrash Sample.fullState)
      as [Hfull _].
    destruct Hfull as (_ & Hsame & _); [reflexivity | exact Hsame].
  - destruct (add_respects_capacity Sample.dragonCrash
                (Sample.withTechniques [Sample.godHand; Sample.theWall]))
      as [_ Hroom].
    destruct Hroom as (_ & Happ & _); [simpl; lia | exact Happ].
Defined.

(** C4, as stated, fails: on a list of one technique, replacing at index
    1 returns normally and grows the list, and removing at index -1
    returns normally and deletes the last entry. *)
Lemma index_out_of_range_counterexample :
  ¬ indexChecked 1 Sample.dragonCrash Sample.singleState
  ∧ ¬ indexChecked (-1) Sample.dragonCrash Sample.singleState
  ∧ selectedHissatsu (replaceTechnique 1 Sample.dragonCrash Sample.singleState)
    = [Some Sample.godHand; Some Sample.dragonCrash]
  ∧ selectedHissatsu (handleRemoveHissatsu (-1) Sample.singleState) = [].
Proof.
  repeat split.
  - intros H. destruct H as [[_ H] _]; [simpl; lia | discriminate H].
  - intros H. destruct H as [_ [_ H]]; [simpl; lia | discriminate H].
Qed.

(** C4, amended. No index is rejected: for a technique list of length L
    and any index, inside the list or not, both handlers return normally
    and no error is raised.  Removing at an index >= L leaves the list
    unchanged.  Replacing at index L, the first free position, appends
    the item: this is the write that adding a technique performs. *)
Theorem index_out_of_range_unchecked (index : Z) (hissatsu : Hissatsu)
    (s : State) :
  let l := selectedHissatsu s in
  let L := Z.of_nat (length l) in
  invoke (replaceTechnique index hissatsu) s
  = Normal (replaceTechnique index hissatsu s)
  ∧ invoke (handleRemoveHissatsu index) s
    = Normal (handleRemoveHissatsu index s)
  ∧ ((L ≤ index)%Z →
       selectedHissatsu (handleRemoveHissatsu index s) = l)
  ∧ (index = L → (L < Js.maxArrayLength)%Z →
       selectedHissatsu (replaceTechnique index hissatsu s)
       = l ++ [Some hissatsu]
       ∧ length (selectedHissatsu (replaceTechnique index hissatsu s))
         = S (length l)).
Proof.
  intros l L. split; [reflexivity|]. split; [reflexivity|]. split.
  - intros Hge. unfold handleRemoveHissatsu. simpl.
    by apply splice_one_past_end.
  - intros -> Hbound.
    assert (selectedHissatsu (replaceTechnique L hissatsu s)
            = l ++ [Some hissatsu]) as Hrep.
    { unfold replaceTechnique, handleHissatsuSelect. simpl. fold l.
      subst L. by apply assign_at_end. }
    split; [exact Hrep|].
    rewrite Hrep, length_app. simpl. lia.
Qed.

Lemma index_out_of_range_unchecked_witness :
  selectedHissatsu
    (handleRemoveHissatsu 2
       (Sample.withTechniques [Sample.godHand; Sample.theWall]))
  = [Some Sample.godHand; Some Sample.theWall]
  ∧ selectedHissatsu
      (replaceTechnique 2 Sample.dragonCrash
         (Sample.withTechniques [Sample.godHand; Sample.theWall]))
    = [Some Sample.godHand; Some Sample.theWall; Some Sample.dragonCrash].
Proof.
  destruct (index_out_of_range_unchecked 2 Sample.dragonCrash
              (Sample.withTechniques [Sample.godHand; Sample.theWall]))
    as (_ & _ & Hremove & Hreplace).
  split.
  - apply Hremove. simpl. lia.
  - apply Hreplace; [reflexivity | unfold Js.maxArrayLength; simpl; lia].
Defined.

(** ** Stat computation *)

(** C8. [computeStats] fails with [InvalidInput] whenever the level is
    outside [1, 99] or the rarity is not one of Common, Rare, Epic and
    Legendary; for a valid level and rarity it returns a stat block for
    every loadout, in particular the one with all four slots empty. *)
Theorem computeStats_validates_level_and_rarity (StatBlock : Type)
    (scaledStats :
       Character → gmap string (option Equipment) → Z → string → StatBlock)
    (character : Character) (loadout : gmap string (option Equipment))
    (level : Z) (rarity : string) :
  (¬ (1 ≤ level ≤ 99)%Z ∨ rarity ∉ knownRarities →
     computeStats StatBlock scaledStats character loadout level rarity
     = Throw InvalidInput)
  ∧ ((1 ≤ level ≤ 99)%Z → rarity ∈ knownRarities →
       computeStats StatBlock scaledStats character loadout level rarity
       = Normal (scaledStats character loadout level rarity)
       ∧ computeStats StatBlock scaledStats character emptyEquipment level
           rarity
         = Normal (scaledStats character emptyEquipment level rarity)).
Proof.
  unfold computeStats. split.
  - intros Hbad. destruct (decide _) as [[Hl Hr]|_]; [|reflexivity].
    destruct Hbad as [Hbad|Hbad]; contradiction.
  - intros Hl Hr. destruct (decide _) as [_|Hno]; [done|].
    exfalso. apply Hno. by split.
Qed.

Lemma computeStats_validates_level_and_rarity_witness :
  computeStats Z (λ _ _ level _, level) Sample.striker emptyEquipment 100
    "Rare" = Throw InvalidInput
  ∧ computeStats Z (λ _ _ level _, level) Sample.striker emptyEquipment 50
      "Mythic" = Throw InvalidInput
  ∧ computeStats Z (λ _ _ level _, level) Sample.striker emptyEquipment 50
      "Rare" = Normal 50%Z.
Proof.
  split; [|split].
  - apply (computeStats_validates_level_and_rarity Z (λ _ _ level _, level)).
    left. lia.
  - apply (computeStats_validates_level_and_rarity Z (λ _ _ level _, level)).
    right. unfold knownRarities. intros Hin.
    repeat (apply elem_of_cons in Hin as [Heq|Hin]; [discriminate Heq|]).
    by apply elem_of_nil in Hin.
  - apply (computeStats_validates_level_and_rarity Z (λ _ _ level _, level)
             Sample.striker emptyEquipment 50%Z "Rare").
    + lia.
    + unfold knownRarities. apply list_elem_of_further, list_elem_of_here.
Defined.

(** * Further properties of the handlers *)

(** ** Technique list: replacing, adding and removing *)

Lemma addTechnique_appends (hissatsu : Hissatsu) (s : State) :
  length (selectedHissatsu s) < 4 →
  selectedHissatsu (addTechnique hissatsu s)
  = selectedHissatsu s ++ [Some hissatsu].
Proof.
  intros Hroom. unfold addTechnique, handleAddHissatsu.
  destruct (decide (length (selectedHissatsu s) < 4)); [|lia]. simpl.
  apply assign_at_end. unfold Js.maxArrayLength. lia.
Qed.

Lemma splice_one_sublist {A} (l : list A) (index : Z) :
  Js.splice l index 1 `sublist_of` l
  ∧ (length l - 1 ≤ length (Js.splice l index 1) ≤ length l)%nat.
Proof.
  destruct (decide (index < 0)%Z) as [Hneg|Hpos].
  - rewrite splice_one_negative by done. split.
    + apply sublist_delete.
    + destruct (decide (Z.to_nat (Z.max (Z.of_nat (length l) + index) 0)
                        < length l)) as [Hlt|Hge].
      * rewrite length_delete by (by apply lookup_lt_is_Some). lia.
      * rewrite delete_take_drop, take_ge, drop_ge, app_nil_r by lia. lia.
  - destruct (decide (index < Z.of_nat (length l))%Z) as [Hin|Hout].
    + rewrite splice_one_in_range by lia. split.
      * apply sublist_delete.
      * rewrite length_delete by (apply lookup_lt_is_Some; lia). lia.
    + rewrite splice_one_past_end by lia. split; [done | lia].
Qed.

(** X1. Replacing at a valid index overwrites in place: the list keeps
    its length, the entry at the index is the chosen technique, every
    other entry is as before, and the overlay is closed again. *)
Theorem replace_in_range_overwrites (index : Z) (hissatsu : Hissatsu)
    (s : State) :
  (0 ≤ index < Z.of_nat (length (selectedHissatsu s)))%Z →
  let s' := replaceTechnique index hissatsu s in
  length (selectedHissatsu s') = length (selectedHissatsu s)
  ∧ selectedHissatsu s' !! Z.to_nat index = Some (Some hissatsu)
  ∧ (∀ j : nat, j ≠ Z.to_nat index →
       selectedHissatsu s' !! j = selectedHissatsu s !! j)
  ∧ showHissatsuList s' = false
  ∧ hissatsuSlotIndex s' = None.
Proof.
  intros Hi s'.
  assert (selectedHissatsu s'
          = <[Z.to_nat index := Some hissatsu]> (selectedHissatsu s)) as Hset.
  { subst s'. unfold replaceTechnique, handleHissatsuSelect. simpl.
    unfold Js.assign.
    destruct (decide (index < 0)%Z); [lia|].
    destruct (decide (Z.to_nat index < length (selectedHissatsu s))); [done|lia]. }
  rewrite Hset. repeat split.
  - apply length_insert.
  - apply list_lookup_insert_eq. lia.
  - intros j Hj. by apply list_lookup_insert_ne.
Qed.

Lemma replace_in_range_overwrites_witness :
  selectedHissatsu (replaceTechnique 2 Sample.dragonCrash Sample.fullState)
    !! 2 = Some (Some Sample.dragonCrash).
Proof.
  pose proof (replace_in_range_overwrites 2 Sample.dragonCrash
                Sample.fullState) as H.
  simpl in H. destruct H as (_ & H & _); [lia | exact H].
Defined.

(** X2. Adding a technique to a list with fewer than 4 entries and then
    removing the entry at the position it was added to gives back the
    original list. *)
Theorem add_then_remove_last (hissatsu : Hissatsu) (s : State) :
  length (selectedHissatsu s) < 4 →
  selectedHissatsu
    (handleRemoveHissatsu (Z.of_nat (length (selectedHissatsu s)))
       (addTechnique hissatsu s))
  = selectedHissatsu s.
Proof.
  intros Hroom. unfold handleRemoveHissatsu. simpl.
  rewrite addTechnique_appends by done.
  rewrite splice_one_in_range by (rewrite length_app; simpl; lia).
  rewrite Nat2Z.id, delete_take_drop.
  rewrite take_app_length, drop_ge, app_nil_r; [done|].
  rewrite length_app. simpl. lia.
Qed.

Lemma add_then_remove_last_witness :
  selectedHissatsu
    (handleRemoveHissatsu 1 (addTechnique Sample.theWall Sample.singleState))
  = selectedHissatsu Sample.singleState.
Proof.
  apply (add_then_remove_last Sample.theWall Sample.singleState).
  simpl. lia.
Defined.

(** X3. Picking from the technique overlay applies once: a second pick
    without reopening the overlay through "Add" or a change button leaves
    the state of the first pick, because the first pick clears the slot
    index; with no slot index at all, a pick changes nothing. *)
Theorem pick_applies_once (first second : Hissatsu) (s : State) :
  handleHissatsuSelect second (handleHissatsuSelect first s)
  = handleHissatsuSelect first s
  ∧ (hissatsuSlotIndex s = None → handleHissatsuSelect first s = s).
Proof.
  destruct (hissatsuSlotIndex s) as [i|] eqn:Hslot.
  - split; [|discriminate].
    unfold handleHissatsuSelect at 2 3. rewrite Hslot. reflexivity.
  - assert (handleHissatsuSelect first s = s) as Hnone.
    { unfold handleHissatsuSelect. by rewrite Hslot. }
    split; [|done]. rewrite Hnone.
    unfold handleHissatsuSelect. by rewrite Hslot.
Qed.

Lemma pick_applies_once_witness :
  handleHissatsuSelect Sample.theWall Sample.singleState = Sample.singleState.
Proof.
  apply (pick_applies_once Sample.theWall Sample.theWall Sample.singleState).
  reflexivity.
Defined.

(** X4. Whatever index is passed, removing never invents, duplicates or
    reorders techniques: the new list is the old one with at most one
    entry left out. *)
Theorem remove_any_index_sublist (index : Z) (s : State) :
  selectedHissatsu (handleRemoveHissatsu index s)
    `sublist_of` selectedHissatsu s
  ∧ (length (selectedHissatsu s) - 1
     ≤ length (selectedHissatsu (handleRemoveHissatsu index s))
     ≤ length (selectedHissatsu s))%nat.
Proof. unfold handleRemoveHissatsu. simpl. apply splice_one_sublist. Qed.

(** ** Navigation: there and back, and the opening index *)

Lemma wrap_forward_back (i n : Z) :
  (0 ≤ i < n)%Z → (((i + 1) `mod` n - 1 + n) `mod` n = i)%Z.
Proof.
  intros Hi. destruct (decide (i + 1 = n)%Z) as [Hlast|Hmid].
  - rewrite Hlast, Z.mod_same by lia. rewrite Z.mod_small by lia. lia.
  - rewrite (Z.mod_small (i + 1) n) by lia.
    replace (i + 1 - 1 + n)%Z with (i + 1 * n)%Z by lia.
    rewrite Z.mod_add by lia. apply Z.mod_small. lia.
Qed.

Lemma wrap_back_forward (i n : Z) :
  (0 ≤ i < n)%Z → (((i - 1 + n) `mod` n + 1) `mod` n = i)%Z.
Proof.
  intros Hi. destruct (decide (i = 0)%Z) as [->|Hpos].
  - rewrite (Z.mod_small (0 - 1 + n) n) by lia.
    replace (0 - 1 + n + 1)%Z with n by lia. apply Z.mod_same. lia.
  - replace (i - 1 + n)%Z with (i - 1 + 1 * n)%Z by lia.
    rewrite Z.mod_add by lia.
    rewrite (Z.mod_small (i - 1) n) by lia.
    replace (i - 1 + 1)%Z with i by lia. apply Z.mod_small. lia.
Qed.

(** X5. With the current index inside the character list, going forward
    and then backward, or backward and then forward, shows the character
    one started from. *)
Theorem navigate_there_and_back (allCharacters : list Character) (s : State)
    (i : Z) :
  currentCharacterIndex s = Some i →
  (0 ≤ i < Z.of_nat (length allCharacters))%Z →
  let back := navigateCharacter allCharacters "prev" in
  let forth := navigateCharacter allCharacters "next" in
  currentCharacterIndex (back (forth s)) = Some i
  ∧ currentCharacterIndex (forth (back s)) = Some i
  ∧ currentCharacter allCharacters (back (forth s))
    = currentCharacter allCharacters s
  ∧ currentCharacter allCharacters (forth (back s))
    = currentCharacter allCharacters s.
Proof.
  intros Hs Hi back forth.
  pose proof (navigate_next_index allCharacters s i Hs) as Hnext.
  pose proof (navigate_back_index allCharacters "prev" s i) as Hprev.
  assert (currentCharacterIndex (back (forth s)) = Some i) as Hbf.
  { subst back forth.
    rewrite (navigate_back_index allCharacters "prev" _ _ ltac:(done)
               (Hnext ltac:(lia) ltac:(lia)));
      [| apply Z.mod_pos_bound; lia | lia].
    f_equal. by apply wrap_forward_back. }
  assert (currentCharacterIndex (forth (back s)) = Some i) as Hfb.
  { subst back forth.
    rewrite (navigate_next_index allCharacters _ _
               (Hprev ltac:(done) Hs ltac:(lia) ltac:(lia)));
      [| apply Z.mod_pos_bound; lia | lia].
    f_equal. by apply wrap_back_forward. }
  unfold currentCharacter. rewrite Hbf, Hfb, Hs. done.
Qed.

Lemma navigate_there_and_back_witness :
  currentCharacterIndex
    (navigateCharacter Sample.roster "prev"
       (navigateCharacter Sample.roster "next"
          (initialState Sample.roster Sample.defender))) = Some 2%Z.
Proof.
  apply (navigate_there_and_back Sample.roster
           (initialState Sample.roster Sample.defender) 2%Z).
  - reflexivity.
  - simpl. lia.
Defined.

Lemma findIndexFrom_found {A} (p : A → bool) (l : list A) (k : Z) :
  (∃ x, x ∈ l ∧ p x = true) →
  ∃ (i : nat) (x : A),
    Js.findIndexFrom p l k = (k + Z.of_nat i)%Z
    ∧ l !! i = Some x ∧ p x = true
    ∧ ∀ (j : nat) (y : A), (j < i)%nat → l !! j = Some y → p y = false.
Proof.
  revert k. induction l as [|a l IH]; intros k (x & Hin & Hpx).
  - by apply elem_of_nil in Hin.
  - simpl. destruct (p a) eqn:Hpa.
    + exists 0%nat, a. repeat split; [lia | done |]. intros j y Hj. lia.
    + apply elem_of_cons in Hin as [->|Hin]; [congruence|].
      destruct (IH (k + 1)%Z (ex_intro _ x (conj Hin Hpx)))
        as (i & y & Hidx & Hlook & Hpy & Hfirst).
      exists (S i), y. repeat split; [lia | done | done |].
      intros [|j] z Hj Hz; simpl in Hz.
      * by inversion Hz; subst.
      * apply (Hfirst j z); [lia | done].
Qed.

Lemma findIndexFrom_missing {A} (p : A → bool) (l : list A) (k : Z) :
  (∀ x, x ∈ l → p x = false) → Js.findIndexFrom p l k = (-1)%Z.
Proof.
  revert k. induction l as [|a l IH]; intros k Hall; [done|].
  simpl. rewrite (Hall a) by apply list_elem_of_here.
  apply IH. intros x Hx. apply Hall. by apply list_elem_of_further.
Qed.

(** X6. When a character with the id of the opened character occurs in
    the list, the dialog opens on the first such character: the index is
    inside the list, the character shown has that id, and no earlier
    character has it. *)
Theorem initialState_finds_character (allCharacters : list Character)
    (character : Character) :
  (∃ c, c ∈ allCharacters ∧ c_id c = c_id character) →
  ∃ (i : nat) (c : Character),
    currentCharacterIndex (initialState allCharacters character)
    = Some (Z.of_nat i)
    ∧ (i < length allCharacters)%nat
    ∧ currentCharacter allCharacters (initialState allCharacters character)
      = Some c
    ∧ c_id c = c_id character
    ∧ ∀ (j : nat) (c' : Character),
        (j < i)%nat → allCharacters !! j = Some c' → c_id c' ≠ c_id character.
Proof.
  intros (c & Hin & Hid).
  destruct (findIndexFrom_found
              (λ c, bool_decide (c_id c = c_id character)) allCharacters 0)
    as (i & c' & Hidx & Hlook & Hp & Hfirst).
  { exists c. split; [done|]. by apply bool_decide_eq_true. }
  exists i, c'. unfold currentCharacter, initialState, Js.findIndex. simpl.
  rewrite Hidx, Z.add_0_l. repeat split.
  - by apply lookup_lt_Some in Hlook.
  - destruct (decide (Z.of_nat i < 0)%Z); [lia|]. by rewrite Nat2Z.id.
  - by apply bool_decide_eq_true in Hp.
  - intros j c'' Hj Hc''. specialize (Hfirst j c'' Hj Hc'').
    by apply bool_decide_eq_false in Hfirst.
Qed.

Lemma initialState_finds_character_witness :
  ∃ (i : nat) (c : Character),
    currentCharacterIndex (initialState Sample.roster Sample.keeper)
    = Some (Z.of_nat i)
    ∧ (i < length Sample.roster)%nat
    ∧ currentCharacter Sample.roster
        (initialState Sample.roster Sample.keeper) = Some c
    ∧ c_id c = c_id Sample.keeper
    ∧ ∀ (j : nat) (c' : Character),
        (j < i)%nat → Sample.roster !! j = Some c' →
        c_id c' ≠ c_id Sample.keeper.
Proof.
  apply initialState_finds_character.
  exists Sample.keeper. split; [|reflexivity].
  unfold Sample.roster. apply list_elem_of_further, list_elem_of_here.
Defined.

(** ** Equipment: independent slots *)

(** X7. Equipping two different categories gives the same equipment, and
    so the same computed stats, in either order. *)
Theorem equip_distinct_categories_commute (allCharacters : list Character)
    (StatBlock : Type)
    (calculateStats :
       option Character → gmap string (option Equipment) → Z → string
       → StatBlock)
    (c1 c2 : string) (a b : Equipment) (s : State) :
  c1 ≠ c2 →
  selectedEquipment (equip c1 a (equip c2 b s))
  = selectedEquipment (equip c2 b (equip c1 a s))
  ∧ calculatedStats allCharacters calculateStats (equip c1 a (equip c2 b s))
    = calculatedStats allCharacters calculateStats
        (equip c2 b (equip c1 a s)).
Proof.
  intros Hne.
  assert (selectedEquipment (equip c1 a (equip c2 b s))
          = selectedEquipment (equip c2 b (equip c1 a s))) as Heq.
  { rewrite !equip_selectedEquipment. by apply insert_insert_ne. }
  split; [exact Heq|]. unfold calculatedStats. by rewrite Heq.
Qed.

Lemma equip_distinct_categories_commute_witness :
  selectedEquipment
    (equip "boots" Sample.speedBoots
       (equip "pendant" Sample.powerBoots
          (initialState Sample.roster Sample.striker)))
  = selectedEquipment
      (equip "pendant" Sample.powerBoots
         (equip "boots" Sample.speedBoots
            (initialState Sample.roster Sample.striker))).
Proof.
  apply (equip_distinct_categories_commute Sample.roster _ (λ _ eq _ _, eq)
           "boots" "pendant").
  discriminate.
Defined.

(** ** Display helpers *)

(** X8. The two position colourings tell the four positions apart and
    keep the grey default for exactly the strings that are no position. *)
Theorem position_colors_distinguish (p q : string) :
  (getPositionColor p = "bg-gray-500 text-white" ↔ p ∉ positions)
  ∧ (getStatColor p = "text-gray-400" ↔ p ∉ positions)
  ∧ (p ∈ positions → q ∈ positions →
       getPositionColor p = getPositionColor q → p = q)
  ∧ (p ∈ positions → q ∈ positions →
       getStatColor p = getStatColor q → p = q).
Proof.
  unfold getPositionColor, getStatColor, positions.
  rewrite !not_elem_of_cons, !elem_of_cons, !elem_of_nil.
  repeat split; repeat (destruct (decide _) as [?|?]; subst); intros;
    try discriminate; try done; intuition congruence.
Qed.

Lemma position_colors_distinguish_witness :
  getPositionColor "CB" = "bg-gray-500 text-white".
Proof.
  apply (position_colors_distinguish "CB" "CB").
  unfold positions. intros Hin.
  repeat (apply elem_of_cons in Hin as [Heq|Hin]; [discriminate Heq|]).
  by apply elem_of_nil in Hin.
Defined.

(** X9. The rarity colouring tells the four offered rarities apart, keeps
    the grey default for exactly the other strings, and the character
    header uses the Legendary gradient exactly when the rarity is
    Legendary. *)
Theorem rarity_colors_distinguish (r q : string) :
  (getRarityColor r = "bg-gray-500" ↔ r ∉ rarityOptions)
  ∧ (r ∈ rarityOptions → q ∈ rarityOptions →
       getRarityColor r = getRarityColor q → r = q)
  ∧ (headerBackground r = getRarityColor "Legendary" ↔ r = "Legendary").
Proof.
  unfold getRarityColor, headerBackground, rarityOptions.
  rewrite !not_elem_of_cons, !elem_of_cons, !elem_of_nil.
  repeat split; repeat (destruct (decide _) as [?|?]; subst); intros;
    try discriminate; try done; intuition congruence.
Qed.

Lemma rarity_colors_distinguish_witness :
  getRarityColor "Mythic" = "bg-gray-500".
Proof.
  apply (rarity_colors_distinguish "Mythic" "Mythic").
  unfold rarityOptions. intros Hin.
  repeat (apply elem_of_cons in Hin as [Heq|Hin]; [discriminate Heq|]).
  by apply elem_of_nil in Hin.
Defined.


(** * Invariants of a dialog session *)

Section Sessions.
Variable allCharacters : list Character.
Variable mockEquipment : gmap string (list Equipment).
Variable mockHissatsu : list Hissatsu.
Variable numberToString : Z → string.

Local Abbreviation enabled' := (enabled allCharacters).
Local Abbreviation fire' := (fire allCharacters numberToString).
Local Abbreviation dispatch' :=
  (dispatch allCharacters mockEquipment mockHissatsu numberToString).
Local Abbreviation run' := (run allCharacters mockEquipment mockHissatsu numberToString).

(** A property kept by every handler on an existing control holds
    throughout a session. *)
Lemma run_invariant (P : State → Prop) :
  (∀ s ev, P s → enabled' mockEquipment mockHissatsu s ev = true →
           P (fire' ev s)) →
  ∀ events s, P s → P (run' events s).
Proof.
  intros Hstep events. unfold run.
  induction events as [|ev events IH]; intros s Hs; simpl; [done|].
  apply IH. unfold dispatch.
  destruct (enabled' mockEquipment mockHissatsu s ev) eqn:He; [|done].
  by apply Hstep.
Qed.

Lemma enabled_has_character s ev :
  enabled' mockEquipment mockHissatsu s ev = true →
  is_Some (currentCharacter allCharacters s).
Proof.
  unfold enabled. intros He. apply andb_true_iff in He as [He _].
  by apply bool_decide_eq_true in He.
Qed.

Lemma fire_keeps_index s ev :
  ev ≠ ClickPrev → ev ≠ ClickNext →
  currentCharacterIndex (fire' ev s) = currentCharacterIndex s.
Proof.
  intros Hp Hn. destruct ev; try done; simpl.
  - unfold handleAddHissatsu. by destruct (decide _).
  - unfold handleHissatsuSelect. by destruct (hissatsuSlotIndex s).
  - unfold addToTeam. by destruct (currentCharacter allCharacters s).
Qed.

Lemma fire_keeps_indexInRange s ev :
  indexInRange allCharacters s → indexInRange allCharacters (fire' ev s).
Proof.
  intros Hs.
  destruct ev; try (by apply navigate_step_in_range);
    unfold indexInRange; by rewrite fire_keeps_index.
Qed.

Lemma indexInRange_has_character s :
  indexInRange allCharacters s → is_Some (currentCharacter allCharacters s).
Proof.
  intros (i & Hs & Hi). unfold currentCharacter. rewrite Hs. simpl.
  destruct (decide (i < 0)%Z); [lia|].
  apply lookup_lt_is_Some. lia.
Qed.

Lemma initialState_indexInRange (character : Character) :
  (∃ c, c ∈ allCharacters ∧ c_id c = c_id character) →
  indexInRange allCharacters (initialState allCharacters character).
Proof.
  intros (c & Hin & Hid).
  destruct (findIndexFrom_found
              (λ c, bool_decide (c_id c = c_id character)) allCharacters 0)
    as (i & c' & Hidx & Hlook & _).
  { exists c. split; [done|]. by apply bool_decide_eq_true. }
  exists (Z.of_nat i). split.
  - unfold initialState, Js.findIndex. simpl. by rewrite Hidx, Z.add_0_l.
  - apply lookup_lt_Some in Hlook. lia.
Qed.

(** X11. Opened on a character that occurs in the list, the dialog has a
    character to show after every sequence of user events: the current
    index never leaves the list. *)
Theorem session_always_shows_character (character : Character)
    (events : list Event) :
  (∃ c, c ∈ allCharacters ∧ c_id c = c_id character) →
  indexInRange allCharacters
    (run' events (initialState allCharacters character))
  ∧ is_Some (currentCharacter allCharacters
               (run' events (initialState allCharacters character))).
Proof.
  intros Hfound.
  assert (indexInRange allCharacters
            (run' events (initialState allCharacters character))) as Hin.
  { apply (run_invariant (indexInRange allCharacters)).
    - intros s ev Hs _. by apply fire_keeps_indexInRange.
    - by apply initialState_indexInRange. }
  split; [exact Hin | by apply indexInRange_has_character].
Qed.

(** X12. Opened on a character whose id does not occur in the list, the
    dialog has index -1 and no character, renders nothing, and so no user
    event ever changes its state. *)
Theorem session_without_character_is_frozen (character : Character)
    (events : list Event) :
  (∀ c, c ∈ allCharacters → c_id c ≠ c_id character) →
  currentCharacterIndex (initialState allCharacters character)
  = Some (-1)%Z
  ∧ currentCharacter allCharacters (initialState allCharacters character)
    = None
  ∧ run' events (initialState allCharacters character)
    = initialState allCharacters character.
Proof.
  intros Hmissing.
  assert (currentCharacterIndex (initialState allCharacters character)
          = Some (-1)%Z) as Hidx.
  { unfold initialState, Js.findIndex. simpl. f_equal.
    apply findIndexFrom_missing. intros c Hc.
    apply bool_decide_eq_false. by apply Hmissing. }
  assert (currentCharacter allCharacters
            (initialState allCharacters character) = None) as Hnone.
  { unfold currentCharacter. by rewrite Hidx. }
  repeat split; [done | done |].
  unfold run. induction events as [|ev events IH]; simpl; [done|].
  unfold dispatch at 2, enabled. rewrite Hnone.
  rewrite bool_decide_eq_false_2 by (by intros [? ?]). simpl. exact IH.
Qed.

End Sessions.

Lemma session_always_shows_character_witness :
  is_Some
    (currentCharacter Sample.roster
       (run Sample.roster ∅ [Sample.dragonCrash] pretty
          [ClickPrev; ClickAdd; ClickHissatsu Sample.dragonCrash; ClickNext;
           ClickNext]
          (initialState Sample.roster Sample.keeper))).
Proof.
  apply (session_always_shows_character Sample.roster ∅ [Sample.dragonCrash]
           pretty
           Sample.keeper).
  exists Sample.keeper. split; [|reflexivity].
  unfold Sample.roster. apply list_elem_of_further, list_elem_of_here.
Defined.

Lemma session_without_character_is_frozen_witness :
  run [Sample.striker; Sample.keeper] ∅ [Sample.dragonCrash] pretty
    [ClickNext; ClickAdd; SelectLevel 5]
    (initialState [Sample.striker; Sample.keeper] Sample.defender)
  = initialState [Sample.striker; Sample.keeper] Sample.defender.
Proof.
  apply (session_without_character_is_frozen
           [Sample.striker; Sample.keeper] ∅ [Sample.dragonCrash] pretty
           Sample.defender).
  intros c Hc.
  repeat (apply elem_of_cons in Hc as [->|Hc]; [discriminate|]).
  by apply elem_of_nil in Hc.
Defined.

(** ** Bounds kept by a session *)

Lemma assign_length_le {A} (l : list (option A)) (i : Z) (v : A) (M : nat) :
  (length l ≤ M)%nat → (i < Z.of_nat M)%Z →
  (length (Js.assign l i v) ≤ M)%nat.
Proof.
  intros Hl Hi. unfold Js.assign.
  destruct (decide (i < 0)%Z); [done|].
  destruct (decide (Z.to_nat i < length l)).
  - by rewrite length_insert.
  - destruct (decide (Js.maxArrayLength ≤ i)%Z); [done|].
    rewrite !length_app, length_replicate. simpl. lia.
Qed.

Lemma entry_is_item_lt {A} (l : list (option A)) (i : nat) :
  is_Some (mjoin (l !! i)) → (i < length l)%nat.
Proof.
  intros [x Hx]. apply lookup_lt_is_Some.
  destruct (l !! i) as [o|]; [by eexists | discriminate].
Qed.

Lemma elem_of_levelOptions (level : Z) :
  level ∈ levelOptions ↔ (1 ≤ level ≤ 99)%Z.
Proof.
  unfold levelOptions. rewrite list_elem_of_fmap. split.
  - intros (i & -> & Hi). apply elem_of_seq in Hi. lia.
  - intros Hl. exists (Z.to_nat (level - 1)). split; [lia|].
    apply elem_of_seq. lia.
Qed.

Section SessionBounds.
Variable allCharacters : list Character.
Variable mockEquipment : gmap string (list Equipment).
Variable mockHissatsu : list Hissatsu.
Variable numberToString : Z → string.

Local Abbreviation enabled' :=
  (enabled allCharacters mockEquipment mockHissatsu).
Local Abbreviation fire' := (fire allCharacters numberToString).
Local Abbreviation run' := (run allCharacters mockEquipment mockHissatsu numberToString).

Lemma fire_keeps_technique_bound (M : nat) s ev :
  (4 ≤ M)%nat → enabled' s ev = true →
  (length (selectedHissatsu s) ≤ M)%nat
  ∧ (∀ i, hissatsuSlotIndex s = Some i → (0 ≤ i < Z.of_nat M)%Z) →
  (length (selectedHissatsu (fire' ev s)) ≤ M)%nat
  ∧ (∀ i, hissatsuSlotIndex (fire' ev s) = Some i → (0 ≤ i < Z.of_nat M)%Z).
Proof.
  intros HM He [Hlen Hslot]. unfold enabled in He.
  apply andb_true_iff in He as [_ He].
  destruct ev; simpl; try done.
  - unfold handleAddHissatsu.
    destruct (decide (length (selectedHissatsu s) < 4)); [|done]. simpl.
    split; [done|]. intros i [= <-]. lia.
  - apply bool_decide_eq_true, entry_is_item_lt in He.
    split; [done|]. intros i [= <-]. lia.
  - split; [|done].
    pose proof (splice_one_sublist (selectedHissatsu s) (Z.of_nat index))
      as [_ Hsplice]. lia.
  - unfold handleHissatsuSelect.
    destruct (hissatsuSlotIndex s) as [i|] eqn:Hi; [|by rewrite Hi].
    simpl. split; [|done]. apply assign_length_le; [done|].
    pose proof (Hslot i eq_refl). lia.
  - unfold addToTeam. by destruct (currentCharacter allCharacters s).
Qed.

(** X13. Through any sequence of user events the technique list never
    grows beyond 4 entries, or beyond the number of techniques the opened
    character brought when that is more than 4. *)
Theorem session_technique_list_bounded (character : Character)
    (events : list Event) :
  (length (selectedHissatsu
             (run' events (initialState allCharacters character)))
   ≤ Nat.max 4 (length (default [] (hissatsu character))))%nat.
Proof.
  set (M := Nat.max 4 (length (default [] (hissatsu character)))).
  apply (run_invariant allCharacters mockEquipment mockHissatsu numberToString
           (λ s, (length (selectedHissatsu s) ≤ M)%nat
                 ∧ ∀ i, hissatsuSlotIndex s = Some i →
                        (0 ≤ i < Z.of_nat M)%Z)).
  - intros s ev Hs He. apply fire_keeps_technique_bound; [lia | done | done].
  - simpl. split; [|done]. rewrite length_fmap. lia.
Qed.

Lemma fire_keeps_level_and_rarity (character : Character) s ev :
  enabled' s ev = true →
  (userLevel s = baseLevel character ∨ (1 ≤ userLevel s ≤ 99)%Z)
  ∧ (userRarity s = baseRarity character ∨ userRarity s ∈ rarityOptions) →
  (userLevel (fire' ev s) = baseLevel character
   ∨ (1 ≤ userLevel (fire' ev s) ≤ 99)%Z)
  ∧ (userRarity (fire' ev s) = baseRarity character
     ∨ userRarity (fire' ev s) ∈ rarityOptions).
Proof.
  intros He [Hlevel Hrarity]. unfold enabled in He.
  apply andb_true_iff in He as [_ He].
  assert ("Legendary" ∈ rarityOptions) as Hleg.
  { unfold rarityOptions. do 3 apply list_elem_of_further.
    apply list_elem_of_here. }
  destruct ev; simpl; try done.
  - split; right; [lia | done].
  - split; right; [lia | done].
  - split; [|done]. right.
    by apply bool_decide_eq_true, elem_of_levelOptions in He.
  - split; [done|]. right. by apply bool_decide_eq_true in He.
  - unfold handleAddHissatsu. by destruct (decide _).
  - unfold handleHissatsuSelect. by destruct (hissatsuSlotIndex s).
  - unfold addToTeam. by destruct (currentCharacter allCharacters s).
Qed.

(** X14. At every point of a session the level is the opened character's
    base level or an integer from 1 to 99, and the rarity is the opened
    character's base rarity or one of Common, Rare, Epic and Legendary:
    [calculateStats] is never called with anything else. *)
Theorem session_level_and_rarity_domain (character : Character)
    (events : list Event) :
  let s := run' events (initialState allCharacters character) in
  (userLevel s = baseLevel character ∨ (1 ≤ userLevel s ≤ 99)%Z)
  ∧ (userRarity s = baseRarity character ∨ userRarity s ∈ rarityOptions).
Proof.
  apply (run_invariant allCharacters mockEquipment mockHissatsu numberToString
           (λ s, (userLevel s = baseLevel character
                  ∨ (1 ≤ userLevel s ≤ 99)%Z)
                 ∧ (userRarity s = baseRarity character
                    ∨ userRarity s ∈ rarityOptions))).
  - intros s ev Hs He. by apply fire_keeps_level_and_rarity.
  - simpl. split; by left.
Qed.

End SessionBounds.

(** ** Equipment slots and empty technique entries *)

Lemma emptyEquipment_holds_nothing (c : string) (o : option Equipment) :
  emptyEquipment !! c = Some o → o = None.
Proof.
  unfold emptyEquipment. intros H.
  repeat (apply lookup_insert_Some in H as [[_ <-]|[_ H]]; [done|]).
  by rewrite lookup_empty in H.
Qed.

Lemma emptyEquipment_dom :
  dom emptyEquipment =@{gset string} list_to_set equipmentCategories.
Proof. unfold emptyEquipment. by rewrite !dom_insert_L, dom_empty_L. Qed.

Lemma truthy_Some (c : option string) :
  truthy c = true → ∃ k, c = Some k ∧ k ≠ "".
Proof.
  destruct c as [k|]; [|discriminate]. simpl. intros Hk.
  exists k. split; [done|]. by apply bool_decide_eq_true in Hk.
Qed.

Lemma splice_one_Forall {A} (P : A → Prop) (l : list A) (index : Z) :
  Forall P l → Forall P (Js.splice l index 1).
Proof.
  intros Hl. destruct (decide (index < 0)%Z).
  - rewrite splice_one_negative by done. by apply Forall_delete.
  - destruct (decide (index < Z.of_nat (length l))%Z).
    + rewrite splice_one_in_range by lia. by apply Forall_delete.
    + by rewrite splice_one_past_end by lia.
Qed.

Lemma assign_no_empty {A} (l : list (option A)) (i : Z) (v : A) :
  Forall is_Some l → (0 ≤ i ≤ Z.of_nat (length l))%Z →
  Forall is_Some (Js.assign l i v).
Proof.
  intros Hl Hi. unfold Js.assign.
  destruct (decide (i < 0)%Z); [lia|].
  destruct (decide (Z.to_nat i < length l)).
  - apply Forall_insert; [done | by eexists].
  - destruct (decide (Js.maxArrayLength ≤ i)%Z); [done|].
    replace (Z.to_nat i - length l) with 0 by lia. simpl.
    apply Forall_app. split; [done|]. apply Forall_singleton. by eexists.
Qed.

Section SessionSlots.
Variable allCharacters : list Character.
Variable mockEquipment : gmap string (list Equipment).
Variable mockHissatsu : list Hissatsu.
Variable numberToString : Z → string.

Local Abbreviation enabled' :=
  (enabled allCharacters mockEquipment mockHissatsu).
Local Abbreviation fire' := (fire allCharacters numberToString).
Local Abbreviation dispatch' :=
  (dispatch allCharacters mockEquipment mockHissatsu numberToString).
Local Abbreviation run' := (run allCharacters mockEquipment mockHissatsu numberToString).

Lemma fire_keeps_equipment_slots s ev :
  enabled' s ev = true →
  dom (selectedEquipment s) =@{gset string} list_to_set equipmentCategories
  ∧ (∀ c, selectedCategory s = Some c → c ∈ equipmentCategories)
  ∧ (∀ c e, selectedEquipment s !! c = Some (Some e) →
            e ∈ default [] (mockEquipment !! c)) →
  dom (selectedEquipment (fire' ev s))
  =@{gset string} list_to_set equipmentCategories
  ∧ (∀ c, selectedCategory (fire' ev s) = Some c → c ∈ equipmentCategories)
  ∧ (∀ c e, selectedEquipment (fire' ev s) !! c = Some (Some e) →
            e ∈ default [] (mockEquipment !! c)).
Proof.
  intros He (Hdom & Hcat & Hitems). unfold enabled in He.
  apply andb_true_iff in He as [_ He].
  assert (∀ c e, emptyEquipment !! c = Some (Some e) →
                 e ∈ default [] (mockEquipment !! c)) as Hempty.
  { intros c e Hc. by apply emptyEquipment_holds_nothing in Hc. }
  destruct ev; simpl; try done.
  - split; [done|]. split; [|done]. intros c [= <-].
    apply bool_decide_eq_true in He.
    apply elem_of_dom in He. rewrite Hdom in He.
    by apply elem_of_list_to_set in He.
  - apply andb_true_iff in He as [He Hlisted].
    apply andb_true_iff in He as [_ Htruthy].
    apply truthy_Some in Htruthy as (k & Hk & _).
    apply bool_decide_eq_true in Hlisted.
    unfold listedEquipment in Hlisted. rewrite Hk in Hlisted |- *.
    change (categoryKey (Some k)) with k in *.
    assert (k ∈ dom (selectedEquipment s)) as Hkdom.
    { rewrite Hdom. apply elem_of_list_to_set. by apply Hcat. }
    split; [|split; [done|]].
    + transitivity (dom (selectedEquipment s)); [|exact Hdom].
      rewrite dom_insert_L.
      apply set_eq. intros x. rewrite elem_of_union, elem_of_singleton.
      split; [intros [->|?]; done | by right].
    + intros c e Hc. apply lookup_insert_Some in Hc as [[<- [= <-]]|[_ Hc]].
      * done.
      * by apply Hitems.
  - unfold handleAddHissatsu. by destruct (decide _).
  - unfold handleHissatsuSelect. by destruct (hissatsuSlotIndex s).
  - unfold addToTeam. by destruct (currentCharacter allCharacters s).
Qed.

(** X15. At every point of a session the equipment object has exactly the
    four keys boots, bracelet, pendant and special, and a slot that holds
    an item holds one that the catalogue lists under that slot's
    category. *)
Theorem session_equipment_slots (character : Character)
    (events : list Event) :
  let s := run' events (initialState allCharacters character) in
  dom (selectedEquipment s) =@{gset string} list_to_set equipmentCategories
  ∧ (∀ c e, selectedEquipment s !! c = Some (Some e) →
            c ∈ equipmentCategories ∧ e ∈ default [] (mockEquipment !! c)).
Proof.
  intros s.
  assert (dom (selectedEquipment s)
          =@{gset string} list_to_set equipmentCategories
          ∧ (∀ c, selectedCategory s = Some c → c ∈ equipmentCategories)
          ∧ (∀ c e, selectedEquipment s !! c = Some (Some e) →
                    e ∈ default [] (mockEquipment !! c)))
    as (Hdom & _ & Hitems).
  { subst s.
    apply (run_invariant allCharacters mockEquipment mockHissatsu numberToString
             (λ s, dom (selectedEquipment s)
                   =@{gset string} list_to_set equipmentCategories
                   ∧ (∀ c, selectedCategory s = Some c →
                           c ∈ equipmentCategories)
                   ∧ (∀ c e, selectedEquipment s !! c = Some (Some e) →
                             e ∈ default [] (mockEquipment !! c)))).
    - intros st ev Hst He. by apply fire_keeps_equipment_slots.
    - simpl. split; [apply emptyEquipment_dom|]. split; [done|].
      intros c e Hc. by apply emptyEquipment_holds_nothing in Hc. }
  split; [done|]. intros c e Hc. split; [|by apply Hitems].
  apply (elem_of_list_to_set (C := gset string)). rewrite <- Hdom.
  apply elem_of_dom. by eexists.
Qed.

Lemma dispatch_keeps_no_empty_entry s ev :
  match ev with
  | ClickRemove _ => showHissatsuList s = false
  | _ => True
  end →
  Forall is_Some (selectedHissatsu s)
  ∧ (showHissatsuList s = true →
     ∀ i, hissatsuSlotIndex s = Some i →
          (0 ≤ i ≤ Z.of_nat (length (selectedHissatsu s)))%Z) →
  Forall is_Some (selectedHissatsu (dispatch' ev s))
  ∧ (showHissatsuList (dispatch' ev s) = true →
     ∀ i, hissatsuSlotIndex (dispatch' ev s) = Some i →
          (0 ≤ i ≤ Z.of_nat (length (selectedHissatsu (dispatch' ev s))))%Z).
Proof.
  intros Hev [Hitems Hslot]. unfold dispatch.
  destruct (enabled' s ev) eqn:He; [|done].
  unfold enabled in He. apply andb_true_iff in He as [_ He].
  destruct ev; simpl; try done.
  - unfold handleAddHissatsu.
    destruct (decide (length (selectedHissatsu s) < 4)); [|done]. simpl.
    split; [done|]. intros _ i [= <-]. lia.
  - apply bool_decide_eq_true, entry_is_item_lt in He.
    split; [done|]. intros _ i [= <-]. lia.
  - split; [by apply splice_one_Forall|]. rewrite Hev. discriminate.
  - apply andb_true_iff in He as [Hshow _].
    unfold handleHissatsuSelect.
    destruct (hissatsuSlotIndex s) as [i|] eqn:Hi; [|by rewrite Hi].
    simpl. split; [|discriminate].
    apply assign_no_empty; [done|]. by apply Hslot.
  - unfold addToTeam. by destruct (currentCharacter allCharacters s).
Qed.

(** X16. Opened on any character, a session in which no technique is
    removed while the technique overlay is open never leaves an empty
    entry in the technique list: every entry holds a technique. *)
Theorem session_no_empty_entry (character : Character)
    (events : list Event) :
  removesWhileClosed allCharacters mockEquipment mockHissatsu numberToString
    events
    (initialState allCharacters character) →
  noEmptyEntry (run' events (initialState allCharacters character)).
Proof.
  unfold noEmptyEntry, run.
  assert (Forall is_Some
            (selectedHissatsu (initialState allCharacters character))
          ∧ (showHissatsuList (initialState allCharacters character) = true →
             ∀ i, hissatsuSlotIndex (initialState allCharacters character)
                  = Some i →
                  (0 ≤ i ≤ Z.of_nat
                             (length (selectedHissatsu
                                        (initialState allCharacters
                                           character))))%Z)) as Hinit.
  { simpl. split; [|discriminate].
    apply Forall_fmap, Forall_true. intros h. by eexists. }
  revert Hinit. generalize (initialState allCharacters character).
  induction events as [|ev events IH]; intros s Hs Hquiet; simpl.
  - by destruct Hs.
  - destruct Hquiet as [Hev Hquiet].
    apply IH; [|done]. by apply dispatch_keeps_no_empty_entry.
Qed.

End SessionSlots.

Lemma session_no_empty_entry_witness :
  noEmptyEntry
    (run Sample.roster ∅ [Sample.dragonCrash; Sample.theWall] pretty
       [ClickAdd; ClickHissatsu Sample.dragonCrash; ClickRemove 0;
        ClickChange 0; ClickHissatsu Sample.theWall; ClickNext]
       (initialState Sample.roster Sample.striker)).
Proof.
  apply session_no_empty_entry.
  simpl. repeat split; reflexivity.
Defined.

(** ** What a session offers and what it cannot undo *)

(** X10. The level select offers exactly the integers from 1 to 99, each
    once: 99 options without repetition. *)
Theorem levelOptions_range (level : Z) :
  (level ∈ levelOptions ↔ (1 ≤ level ≤ 99)%Z)
  ∧ length levelOptions = 99%nat
  ∧ NoDup levelOptions.
Proof.
  split; [apply elem_of_levelOptions|]. unfold levelOptions. split.
  - by rewrite length_fmap, length_seq.
  - apply NoDup_fmap_2; [|apply NoDup_seq].
    intros i j Hij. lia.
Qed.

Section SessionEquipment.
Variable allCharacters : list Character.
Variable mockEquipment : gmap string (list Equipment).
Variable mockHissatsu : list Hissatsu.
Variable numberToString : Z → string.

Local Abbreviation dispatch' :=
  (dispatch allCharacters mockEquipment mockHissatsu numberToString).
Local Abbreviation run' := (run allCharacters mockEquipment mockHissatsu numberToString).

Lemma dispatch_keeps_slot_filled (c : string) s ev :
  ev ≠ ClickPrev → ev ≠ ClickNext →
  (∃ e, selectedEquipment s !! c = Some (Some e)) →
  ∃ e, selectedEquipment (dispatch' ev s) !! c = Some (Some e).
Proof.
  intros Hp Hn [e He]. unfold dispatch.
  destruct (enabled _ _ _ s ev); [|by exists e].
  destruct ev; simpl; try done; try (by exists e).
  - destruct (decide (categoryKey (selectedCategory s) = c)) as [<-|Hne].
    + exists equipment. apply lookup_insert_eq.
    + exists e. by rewrite lookup_insert_ne.
  - unfold handleAddHissatsu. destruct (decide _); by exists e.
  - unfold handleHissatsuSelect.
    destruct (hissatsuSlotIndex s); by exists e.
  - unfold addToTeam.
    destruct (currentCharacter allCharacters s); by exists e.
Qed.

(** X17. There is no way to take an item off: as long as the user does
    not navigate to another character, a slot that holds an item keeps
    holding one, whatever else happens in the dialog. *)
Theorem session_never_unequips (events : list Event) (s : State)
    (c : string) (e : Equipment) :
  Forall (λ ev, ev ≠ ClickPrev ∧ ev ≠ ClickNext) events →
  selectedEquipment s !! c = Some (Some e) →
  ∃ e', selectedEquipment (run' events s) !! c = Some (Some e').
Proof.
  intros Hevents He.
  assert (∃ e', selectedEquipment s !! c = Some (Some e')) as Hfilled
    by (by exists e).
  clear He. revert s Hfilled. unfold run.
  induction Hevents as [|ev events [Hp Hn] _ IH]; intros s Hfilled; simpl.
  - exact Hfilled.
  - apply IH. by apply dispatch_keeps_slot_filled.
Qed.

End SessionEquipment.

Lemma session_never_unequips_witness :
  ∃ e',
    selectedEquipment
      (run Sample.roster {["boots" := [Sample.powerBoots]]}
         [Sample.dragonCrash] pretty
         [ClickSlot "boots"; ClickEquipment Sample.powerBoots; ClickAdd;
          SelectLevel 7]
         (equip "boots" Sample.speedBoots
            (initialState Sample.roster Sample.striker))) !! "boots"
    = Some (Some e').
Proof.
  apply (session_never_unequips Sample.roster
           {["boots" := [Sample.powerBoots]]} [Sample.dragonCrash] pretty _ _
           "boots" Sample.speedBoots).
  - repeat (apply Forall_cons; split; [split; discriminate|]).
    apply Forall_nil_2.
  - reflexivity.
Defined.
